(** * A to-do list editor (src/src/App.jsx): store, entry form and their laws

    The application keeps a list of tasks in a React state cell
    ([useTodos]) and an entry form with two private state cells
    ([AddTodoForm]).  Every handler of the source is a pure function of the
    state captured by the last render and of the event it receives, so the
    embedding below is by explicit state passing:

    - a task is a record with the three fields of the object literals;
    - a JavaScript string is its sequence of UTF-16 code units, so that
      [length] is [String.prototype.length];
    - [Date.now()] is a reading of the wall clock: it is an input of the
      operation that performs it;
    - a handler of the form returns the new form state together with the
      calls it made to the store. *)

From Stdlib Require Import ZArith NArith String Ascii.
From stdpp Require Import base decidable numbers list sorting.

Local Open Scope nat_scope.

(** ** JavaScript strings *)

(** A string value: the list of its UTF-16 code units. *)
Abbreviation jsstring := (list N).

(** The code units of an ASCII literal of the source. *)
Definition js (s : string) : jsstring :=
  map N_of_ascii (list_ascii_of_string s).

(** ECMAScript [WhiteSpace] and [LineTerminator] code points, the ones
    [String.prototype.trim] strips. *)
Definition isWhiteSpace (c : N) : bool :=
  ((9 <=? c) && (c <=? 13) ||
   (c =? 32) || (c =? 160) || (c =? 5760) ||
   (8192 <=? c) && (c <=? 8202) ||
   (c =? 8232) || (c =? 8233) || (c =? 8239) || (c =? 8287) ||
   (c =? 12288) || (c =? 65279))%N.

Fixpoint trimStart (s : jsstring) : jsstring :=
  match s with
  | [] => []
  | c :: r => if isWhiteSpace c then trimStart r else s
  end.

Definition trimEnd (s : jsstring) : jsstring :=
  reverse (trimStart (reverse s)).

(** [s.trim()] *)
Definition trim (s : jsstring) : jsstring := trimEnd (trimStart s).

(** Truthiness of a string in a condition: only [''] is falsy. *)
Definition truthy (s : jsstring) : bool :=
  match s with
  | [] => false
  | _ :: _ => true
  end.

(** ** The store: [useTodos] *)

Record Todo : Type := mkTodo {
  id : Z;
  text : jsstring;
  completed : bool
}.

#[global] Instance Todo_eq_dec : EqDecision Todo.
Proof. solve_decision. Defined.

(** The argument of [useState] in [useTodos]. *)
Definition initialTodos : list Todo :=
  [ mkTodo 1 (js "Make a logo bigger") false;
    mkTodo 2 (js "Launch the Beta version") true;
    mkTodo 3 (js "Fix the car") false;
    mkTodo 4 (js "Make a dinner") false ].

(** [prevTodos => [...prevTodos, { id: Date.now(), text, completed: false }]];
    [now] is the value [Date.now()] returns. *)
Definition addTodo (now : Z) (t : jsstring) (prevTodos : list Todo) : list Todo :=
  prevTodos ++ [ {| id := now; text := t; completed := false |} ].

(** [{ ...todo, completed: !todo.completed }] *)
Definition flipCompleted (todo : Todo) : Todo :=
  {| id := id todo; text := text todo; completed := negb (completed todo) |}.

(** [prevTodos.map(todo => todo.id === id ? {...} : todo)] *)
Definition toggleTodo (i : Z) (prevTodos : list Todo) : list Todo :=
  (λ todo, if decide (id todo = i) then flipCompleted todo else todo) <$> prevTodos.

(** [prevTodos.filter(todo => todo.id !== id)] *)
Definition deleteTodo (i : Z) (prevTodos : list Todo) : list Todo :=
  filter (λ todo, id todo ≠ i) prevTodos.

(** A call of one of the three functions the context publishes. *)
Inductive StoreCall : Type :=
  | CallAdd (t : jsstring)
  | CallToggle (i : Z)
  | CallDelete (i : Z).

(** The effect of a call on the state cell; [now] is the clock reading
    available to it (only [addTodo] reads it). *)
Definition runCall (now : Z) (c : StoreCall) (todos : list Todo) : list Todo :=
  match c with
  | CallAdd t => addTodo now t todos
  | CallToggle i => toggleTodo i todos
  | CallDelete i => deleteTodo i todos
  end.

Definition runCalls (now : Z) (cs : list StoreCall) (todos : list Todo) : list Todo :=
  foldl (λ acc c, runCall now c acc) todos cs.

(** The lists the store can hold: the seed, then any sequence of calls,
    each at some clock reading. *)
Inductive reachable : list Todo → Prop :=
  | reach_seed : reachable initialTodos
  | reach_call now c todos : reachable todos → reachable (runCall now c todos).

(** ** The entry form: [AddTodoForm] *)

Record Form : Type := mkForm {
  inputValue : jsstring;
  error : jsstring
}.

(** The message [handleSubmit] passes to [setError]. *)
Definition validationMessage : jsstring := js "Task must be minimum 5 characters".

(** [handleInputChange]: [v] is [e.target.value]. *)
Definition handleInputChange (v : jsstring) (f : Form) : Form :=
  {| inputValue := v;
     error := if truthy (error f) && bool_decide (5 ≤ length v)
              then [] else error f |}.

(** [handleSubmit]: the new form state and the calls made to the store. *)
Definition handleSubmit (f : Form) : Form * list StoreCall :=
  if bool_decide (length (trim (inputValue f)) < 5)
  then ({| inputValue := inputValue f; error := validationMessage |}, [])
  else ({| inputValue := []; error := error f |}, [CallAdd (trim (inputValue f))]).

(** [handleKeyPress]: [key] is [e.key]. *)
Definition handleKeyPress (key : jsstring) (f : Form) : Form * list StoreCall :=
  if decide (key = js "Enter") then handleSubmit f else (f, []).

(** ** The application: store and form together *)

Record App : Type := mkApp {
  todos : list Todo;
  form : Form
}.

Definition initialApp : App :=
  {| todos := initialTodos; form := {| inputValue := []; error := [] |} |}.

(** What the user can do to the page. *)
Inductive Event : Type :=
  | InputChange (v : jsstring)     (* typing in the text input *)
  | ClickAdd                       (* the "Add Task" button *)
  | KeyPress (key : jsstring)      (* a key pressed in the text input *)
  | ToggleRow (i : Z)              (* the checkbox of a row *)
  | DeleteRow (i : Z).             (* the delete button of a row *)

(** The handler an event runs: the new form state and the store calls made. *)
Definition handle (ev : Event) (f : Form) : Form * list StoreCall :=
  match ev with
  | InputChange v => (handleInputChange v f, [])
  | ClickAdd => handleSubmit f
  | KeyPress key => handleKeyPress key f
  | ToggleRow i => (f, [CallToggle i])
  | DeleteRow i => (f, [CallDelete i])
  end.

(** One event, handled at clock reading [now]. *)
Definition step (now : Z) (ev : Event) (app : App) : App :=
  {| todos := runCalls now (snd (handle ev (form app))) (todos app);
     form := fst (handle ev (form app)) |}.

(** The two ways to submit the form: the button, or Enter in the input. *)
Definition submits (ev : Event) : Prop :=
  ev = ClickAdd ∨ ev = KeyPress (js "Enter").

(** A session: events with the clock reading at which each is handled. *)
Definition run (evs : list (Z * Event)) (app : App) : App :=
  foldl (λ acc e, step (fst e) (snd e) acc) app evs.

(** ** The views: [TodoItem], [TodoList] and the markup of [AddTodoForm] *)

(** What [TodoItem] renders for a task: the state of the checkbox, the
    class and the content of the text span, and the store call behind each
    of the two controls. *)
Record RowView : Type := mkRowView {
  checked : bool;
  textClass : jsstring;
  label : jsstring;
  onChange : StoreCall;
  onClick : StoreCall
}.

Definition TodoItem (todo : Todo) : RowView :=
  {| checked := completed todo;
     textClass := js "todo-text " ++ (if completed todo then js "completed" else []);
     label := text todo;
     onChange := CallToggle (id todo);
     onClick := CallDelete (id todo) |}.

(** What [TodoList] renders: the placeholder, or one keyed row per task. *)
Inductive ListView : Type :=
  | EmptyState (message : jsstring)
  | Rows (rows : list (Z * RowView)).

Definition TodoList (l : list Todo) : ListView :=
  match l with
  | [] => EmptyState (js "No tasks yet. Add one above!")
  | _ :: _ => Rows ((λ todo, (id todo, TodoItem todo)) <$> l)
  end.

(** What [AddTodoForm] renders: the value of the input, and the error box,
    present only when [error] is truthy. *)
Record FormView : Type := mkFormView {
  value : jsstring;
  errorMessage : option jsstring
}.

Definition AddTodoForm (f : Form) : FormView :=
  {| value := inputValue f;
     errorMessage := if truthy (error f) then Some (error f) else None |}.

(** A task text as the form lets it through: five code units or more,
    nothing to trim. *)
Definition validText (t : jsstring) : Prop := 5 ≤ length t ∧ trim t = t.

(** The form never holds a stale error: the error is absent, or it is the
    validation message and the input as it stands would be rejected. *)
Definition errorSound (f : Form) : Prop :=
  error f = [] ∨ (error f = validationMessage ∧ length (trim (inputValue f)) < 5).

(** Store calls in sequence, each at its own clock reading. *)
Definition runTimed (cs : list (Z * StoreCall)) (todos : list Todo) : list Todo :=
  foldl (λ acc c, runCall (fst c) (snd c) acc) todos cs.

(** Two tasks created at one reading of the clock, after the seed. *)
Definition tick : Z := 1700000000000.

Definition collided : list Todo :=
  addTodo tick (js "Task two") (addTodo tick (js "Task one") initialTodos).

(** The form with a task typed in, surrounded by blanks, over the seed. *)
Definition buyMilk : App :=
  {| todos := initialTodos;
     form := {| inputValue := js "  Buy milk "; error := [] |} |}.

(** The form with too short a text typed in, over the seed. *)
Definition tooShort : App :=
  {| todos := initialTodos;
     form := {| inputValue := js " ok  "; error := [] |} |}.

(** * Properties *)

(** ** Trimming *)

Section Trim.
Implicit Types s : jsstring.

Lemma length_trimStart_le s : length (trimStart s) ≤ length s.
Proof.
  induction s as [|c r IH]; simpl; [lia|].
  destruct (isWhiteSpace c); simpl; lia.
Qed.

Lemma length_trimEnd_le s : length (trimEnd s) ≤ length s.
Proof.
  unfold trimEnd. rewrite length_reverse.
  etrans; [apply length_trimStart_le|]. by rewrite length_reverse.
Qed.

Lemma length_trim_le s : length (trim s) ≤ length s.
Proof.
  unfold trim. etrans; [apply length_trimEnd_le|apply length_trimStart_le].
Qed.

Example trim_blanks : trim (js "  Buy milk ") = js "Buy milk".
Proof. reflexivity. Qed.

Example trim_all_blank : trim (js "     ") = [].
Proof. reflexivity. Qed.

(** What is left of a string after [trimStart] does not start with
    white space. *)
Lemma trimStart_head s c r : trimStart s = c :: r → isWhiteSpace c = false.
Proof.
  induction s as [|d s IH]; simpl; [done|].
  destruct (isWhiteSpace d) eqn:Hd; [done|]. by intros [= -> _].
Qed.
End Trim.

(** ** The store *)

Section Store.
Implicit Types (l : list Todo) (i now : Z) (n m : nat) (t : jsstring).

Lemma flipCompleted_involutive (todo : Todo) :
  flipCompleted (flipCompleted todo) = todo.
Proof. destruct todo as [? ? []]; reflexivity. Qed.

Lemma toggleTodo_lookup i l n :
  toggleTodo i l !! n =
  (λ todo, if decide (id todo = i) then flipCompleted todo else todo) <$> l !! n.
Proof. apply list_lookup_fmap. Qed.

Lemma toggleTodo_lookup_eq i l n todo :
  l !! n = Some todo → id todo = i →
  toggleTodo i l !! n = Some (flipCompleted todo).
Proof.
  intros Hn Hi. rewrite toggleTodo_lookup, Hn. simpl. by rewrite decide_True.
Qed.

Lemma toggleTodo_lookup_ne i l n todo :
  l !! n = Some todo → id todo ≠ i → toggleTodo i l !! n = Some todo.
Proof.
  intros Hn Hi. rewrite toggleTodo_lookup, Hn. simpl. by rewrite decide_False.
Qed.

Lemma toggleTodo_ids i l : id <$> toggleTodo i l = id <$> l.
Proof.
  unfold toggleTodo. rewrite <- list_fmap_compose.
  apply list_fmap_ext. intros _ todo _. simpl. by case_decide.
Qed.

Lemma toggleTodo_texts i l : text <$> toggleTodo i l = text <$> l.
Proof.
  unfold toggleTodo. rewrite <- list_fmap_compose.
  apply list_fmap_ext. intros _ todo _. simpl. by case_decide.
Qed.

Lemma toggleTodo_length i l : length (toggleTodo i l) = length l.
Proof. apply length_fmap. Qed.

Lemma toggleTodo_involutive i l : toggleTodo i (toggleTodo i l) = l.
Proof.
  unfold toggleTodo. rewrite <- list_fmap_compose.
  rewrite <- (list_fmap_id l) at 2.
  apply list_fmap_ext. intros _ todo _. simpl.
  destruct (decide (id todo = i)) as [Hi|Hi]; simpl.
  - rewrite decide_True by done. apply flipCompleted_involutive.
  - by rewrite decide_False.
Qed.

(** An id that no task carries: both lookups miss. *)
Lemma toggleTodo_absent i l : i ∉ id <$> l → toggleTodo i l = l.
Proof.
  intros Hi. unfold toggleTodo. rewrite <- (list_fmap_id l) at 2.
  apply list_fmap_ext. intros k todo Hin. simpl.
  rewrite decide_False; [done|]. intros <-. apply Hi.
  apply list_elem_of_fmap. exists todo. split; [done|].
  by eapply list_elem_of_lookup_2.
Qed.

Lemma deleteTodo_absent i l : i ∉ id <$> l → deleteTodo i l = l.
Proof.
  intros Hi. unfold deleteTodo.
  induction l as [|todo l IH]; [done|].
  rewrite fmap_cons, not_elem_of_cons in Hi. destruct Hi as [Hne Hi].
  rewrite filter_cons_True by done. f_equal. by apply IH.
Qed.

Lemma deleteTodo_elem_of i l (todo : Todo) :
  todo ∈ deleteTodo i l ↔ todo ∈ l ∧ id todo ≠ i.
Proof. unfold deleteTodo. rewrite list_elem_of_filter. tauto. Qed.

Lemma deleteTodo_app i l1 l2 :
  deleteTodo i (l1 ++ l2) = deleteTodo i l1 ++ deleteTodo i l2.
Proof. apply filter_app. Qed.

(** When position [n] is the only one that carries its id, deleting that
    id cuts out that position and nothing else. *)
Lemma deleteTodo_sole l n todo :
  l !! n = Some todo →
  (∀ m other, l !! m = Some other → id other = id todo → m = n) →
  deleteTodo (id todo) l = take n l ++ drop (S n) l.
Proof.
  intros Hn Hsole.
  rewrite <- (take_drop_middle l n todo Hn) at 1.
  rewrite deleteTodo_app. f_equal.
  - apply deleteTodo_absent.
    intros (other & Heq & Hin)%list_elem_of_fmap.
    apply list_elem_of_lookup in Hin as [m Hm].
    apply lookup_take_Some in Hm as [Hm Hlt].
    specialize (Hsole m other Hm (eq_sym Heq)). lia.
  - unfold deleteTodo at 1. rewrite filter_cons_False by (intros H; by apply H).
    apply deleteTodo_absent.
    intros (other & Heq & Hin)%list_elem_of_fmap.
    apply list_elem_of_lookup in Hin as [m Hm]. rewrite lookup_drop in Hm.
    specialize (Hsole (S n + m) other Hm (eq_sym Heq)). lia.
Qed.

(** When position [n] is the only one that carries its id, toggling that
    id rewrites that position and nothing else. *)
Lemma toggleTodo_sole l n todo :
  l !! n = Some todo →
  (∀ m other, l !! m = Some other → id other = id todo → m = n) →
  toggleTodo (id todo) l = <[n := flipCompleted todo]> l.
Proof.
  intros Hn Hsole.
  apply list_eq. intros m.
  destruct (decide (m = n)) as [->|Hmn].
  - rewrite list_lookup_insert_eq by (by eapply lookup_lt_Some).
    by apply toggleTodo_lookup_eq.
  - rewrite list_lookup_insert_ne by done.
    destruct (l !! m) as [other|] eqn:Hm.
    + apply toggleTodo_lookup_ne; [done|]. intros Heq.
      apply Hmn. by eapply Hsole.
    + by rewrite toggleTodo_lookup, Hm.
Qed.

(** *** Uniqueness of ids, under a clock that never repeats an id *)

Lemma addTodo_ids now t l : id <$> addTodo now t l = (id <$> l) ++ [now].
Proof. unfold addTodo. by rewrite fmap_app. Qed.

Lemma addTodo_NoDup now t l :
  now ∉ id <$> l → NoDup (id <$> l) → NoDup (id <$> addTodo now t l).
Proof.
  intros Hfresh Hnd. rewrite addTodo_ids. apply NoDup_app.
  split; [done|]. split; [|apply NoDup_singleton].
  intros x Hx ->%list_elem_of_singleton. done.
Qed.

Lemma toggleTodo_NoDup i l : NoDup (id <$> l) → NoDup (id <$> toggleTodo i l).
Proof. by rewrite toggleTodo_ids. Qed.

Lemma deleteTodo_NoDup i l : NoDup (id <$> l) → NoDup (id <$> deleteTodo i l).
Proof.
  intros Hnd. unfold deleteTodo.
  eapply sublist_NoDup; [exact Hnd|].
  apply fmap_sublist, sublist_filter.
Qed.
End Store.

(** ** The entry form *)

Section EntryForm.
Implicit Types (f : Form) (v : jsstring) (ev : Event).

(** Both submit events run [handleSubmit]. *)
Lemma handle_submits ev f : submits ev → handle ev f = handleSubmit f.
Proof.
  intros [-> | ->]; simpl; [done|].
  unfold handleKeyPress. by rewrite decide_True.
Qed.

Lemma handleSubmit_short f :
  length (trim (inputValue f)) < 5 →
  handleSubmit f = ({| inputValue := inputValue f; error := validationMessage |}, []).
Proof. intros H. unfold handleSubmit. by rewrite bool_decide_eq_true_2. Qed.

Lemma handleSubmit_long f :
  5 ≤ length (trim (inputValue f)) →
  handleSubmit f =
  ({| inputValue := []; error := error f |}, [CallAdd (trim (inputValue f))]).
Proof.
  intros H. unfold handleSubmit. rewrite bool_decide_eq_false_2; [done|lia].
Qed.

(** A key other than Enter does nothing. *)
Lemma handleKeyPress_other key f : key ≠ js "Enter" → handleKeyPress key f = (f, []).
Proof. intros H. unfold handleKeyPress. by rewrite decide_False. Qed.

(** What [handleInputChange] does to a displayed error: it goes exactly
    when the untrimmed text has five code units or more. *)
Lemma handleInputChange_error v f :
  error f ≠ [] →
  error (handleInputChange v f) = if decide (5 ≤ length v) then [] else error f.
Proof.
  intros Herr. unfold handleInputChange. simpl.
  destruct (error f) as [|c e]; [done|]. simpl.
  case_decide; case_bool_decide; done.
Qed.

(** The half of the eager clearing that does hold: a text whose trimmed
    length is at least five clears the error. *)
Lemma handleInputChange_clears v f :
  5 ≤ length (trim v) → error (handleInputChange v f) = [].
Proof.
  intros Hlen. pose proof (length_trim_le v) as Hle.
  unfold handleInputChange. simpl.
  destruct (error f) as [|c e]; [done|]. simpl.
  rewrite bool_decide_eq_true_2; [done|lia].
Qed.

Lemma handleInputChange_input v f : inputValue (handleInputChange v f) = v.
Proof. reflexivity. Qed.
End EntryForm.

(** ** The application *)

Section Application.
Implicit Types (app : App) (ev : Event) (now i : Z).

Lemma step_submit_long now ev app :
  submits ev → 5 ≤ length (trim (inputValue (form app))) →
  step now ev app =
  {| todos := addTodo now (trim (inputValue (form app))) (todos app);
     form := {| inputValue := []; error := error (form app) |} |}.
Proof.
  intros Hs Hlen. unfold step.
  by rewrite (handle_submits _ _ Hs), (handleSubmit_long _ Hlen).
Qed.

Lemma step_submit_short now ev app :
  submits ev → length (trim (inputValue (form app))) < 5 →
  step now ev app =
  {| todos := todos app;
     form := {| inputValue := inputValue (form app); error := validationMessage |} |}.
Proof.
  intros Hs Hlen. unfold step.
  by rewrite (handle_submits _ _ Hs), (handleSubmit_short _ Hlen).
Qed.

Lemma step_toggle now i app :
  step now (ToggleRow i) app = {| todos := toggleTodo i (todos app); form := form app |}.
Proof. reflexivity. Qed.

Lemma step_delete now i app :
  step now (DeleteRow i) app = {| todos := deleteTodo i (todos app); form := form app |}.
Proof. reflexivity. Qed.

(** Every list a session shows is one the store can reach. *)
Lemma runCalls_reachable now cs l : reachable l → reachable (runCalls now cs l).
Proof.
  revert l. induction cs as [|c cs IH]; intros l Hl; [done|].
  simpl. apply IH. by constructor.
Qed.

Lemma run_reachable evs app : reachable (todos app) → reachable (todos (run evs app)).
Proof.
  revert app. induction evs as [|[now ev] evs IH]; intros app Happ; [done|].
  simpl. apply IH. simpl. by apply runCalls_reachable.
Qed.
End Application.

(** The scenario of the specification, run on the model: a rejected
    submission, an accepted one, a toggle of the new task and the deletion
    of the first seeded one. *)
Example scenario :
  let s1 := run [(tick, InputChange (js "ok")); (tick, ClickAdd)] initialApp in
  let s2 := run [(tick, InputChange (js "Buy milk")); (tick, KeyPress (js "Enter"))] s1 in
  let s3 := run [(tick, ToggleRow tick); (tick, DeleteRow 1)] s2 in
  error (form s1) = validationMessage ∧ length (todos s1) = 4 ∧
  last (todos s2) = Some (mkTodo tick (js "Buy milk") false) ∧
  length (todos s2) = 5 ∧ inputValue (form s2) = [] ∧
  todos s3 = [ mkTodo 2 (js "Launch the Beta version") true;
               mkTodo 3 (js "Fix the car") false;
               mkTodo 4 (js "Make a dinner") false;
               mkTodo tick (js "Buy milk") true ].
Proof. vm_compute. repeat split. Qed.

(** Deleting every task leaves the placeholder. *)
Example empty_state :
  TodoList (foldr deleteTodo initialTodos [1; 2; 3; 4]%Z) =
  EmptyState (js "No tasks yet. Add one above!").
Proof. reflexivity. Qed.

Lemma collided_reachable : reachable collided.
Proof.
  apply (reach_call tick (CallAdd (js "Task two"))).
  apply (reach_call tick (CallAdd (js "Task one"))).
  apply reach_seed.
Qed.

(** The same list, produced through the page. *)
Lemma collided_by_events :
  todos (run [ (tick, InputChange (js "Task one")); (tick, ClickAdd);
               (tick, InputChange (js "Task two")); (tick, KeyPress (js "Enter")) ]
             initialApp) = collided.
Proof. reflexivity. Qed.

(** * The claims *)

(** C1: for every task list and every input text whose trimmed length is
    at least 5, submitting it (by the button or by Enter) makes exactly one
    call to the store, [add] of the trimmed text; the list grows by exactly
    one, every task already present stays what and where it was, and the new
    last task has the trimmed text and is not completed. *)
Theorem submit_valid_appends (now : Z) (ev : Event) (app : App) :
  submits ev →
  5 ≤ length (trim (inputValue (form app))) →
  snd (handle ev (form app)) = [CallAdd (trim (inputValue (form app)))] ∧
  length (todos (step now ev app)) = S (length (todos app)) ∧
  (∀ n todo, todos app !! n = Some todo → todos (step now ev app) !! n = Some todo) ∧
  (∃ new, todos (step now ev app) = todos app ++ [new] ∧
          last (todos (step now ev app)) = Some new ∧
          text new = trim (inputValue (form app)) ∧ completed new = false).
Proof.
  intros Hs Hlen.
  rewrite (step_submit_long now ev app Hs Hlen).
  rewrite (handle_submits _ _ Hs), (handleSubmit_long _ Hlen). simpl.
  unfold addTodo. split_and!.
  - done.
  - rewrite length_app. simpl. lia.
  - intros n todo Hn. by apply lookup_app_l_Some.
  - eexists. split; [done|]. by rewrite last_snoc.
Qed.

Lemma submit_valid_appends_witness :
  submits ClickAdd ∧ 5 ≤ length (trim (inputValue (form buyMilk))) ∧
  length (todos (step tick ClickAdd buyMilk)) = S (length (todos buyMilk)).
Proof.
  assert (Hs : submits ClickAdd) by (by left).
  assert (Hlen : 5 ≤ length (trim (inputValue (form buyMilk)))) by (vm_compute; lia).
  split; [exact Hs|]. split; [exact Hlen|].
  exact (proj1 (proj2 (submit_valid_appends tick ClickAdd buyMilk Hs Hlen))).
Defined.

(** C4: for every input text whose trimmed length is below 5, submitting
    it makes no call to the store, leaves the task list and the text of the
    input field as they were, and sets the error message to the fixed
    validation string. *)
Theorem submit_short_rejected (now : Z) (ev : Event) (app : App) :
  submits ev →
  length (trim (inputValue (form app))) < 5 →
  snd (handle ev (form app)) = [] ∧
  todos (step now ev app) = todos app ∧
  inputValue (form (step now ev app)) = inputValue (form app) ∧
  error (form (step now ev app)) = validationMessage.
Proof.
  intros Hs Hlen.
  rewrite (step_submit_short now ev app Hs Hlen).
  by rewrite (handle_submits _ _ Hs), (handleSubmit_short _ Hlen).
Qed.

Lemma submit_short_rejected_witness :
  submits (KeyPress (js "Enter")) ∧ length (trim (inputValue (form tooShort))) < 5 ∧
  error (form (step tick (KeyPress (js "Enter")) tooShort)) = validationMessage.
Proof.
  assert (Hs : submits (KeyPress (js "Enter"))) by (by right).
  assert (Hlen : length (trim (inputValue (form tooShort))) < 5) by (vm_compute; lia).
  split; [exact Hs|]. split; [exact Hlen|].
  exact (proj2 (proj2 (proj2
    (submit_short_rejected tick (KeyPress (js "Enter")) tooShort Hs Hlen)))).
Defined.

(** C2, as amended: for every task list that holds a task with id [i] and
    no other task with that id, [toggle(i)] yields a list in which that task
    has its completed flag negated and its id and text unchanged, and every
    other position holds the task it held before. *)
Theorem toggle_unique_flips_one (l : list Todo) (i : Z) (n : nat) (todo : Todo) :
  l !! n = Some todo → id todo = i →
  (∀ m other, l !! m = Some other → id other = i → m = n) →
  (∃ todo', toggleTodo i l !! n = Some todo' ∧
            completed todo' = negb (completed todo) ∧
            id todo' = id todo ∧ text todo' = text todo) ∧
  (∀ m, m ≠ n → toggleTodo i l !! m = l !! m) ∧
  length (toggleTodo i l) = length l.
Proof.
  intros Hn <- Hsole. rewrite (toggleTodo_sole l n todo Hn Hsole). split_and!.
  - exists (flipCompleted todo). split_and!; try done.
    apply list_lookup_insert_eq. by eapply lookup_lt_Some.
  - intros m Hm. by apply list_lookup_insert_ne.
  - apply length_insert.
Qed.

Lemma initialTodos_NoDup : NoDup (id <$> initialTodos).
Proof. apply (bool_decide_unpack _). vm_compute. exact I. Qed.

(** The amended claim at work on the list with the collision: id 2 is
    carried by position 1 only, although two other tasks share an id. *)
Lemma toggle_unique_flips_one_witness :
  collided !! 1 = Some (mkTodo 2 (js "Launch the Beta version") true) ∧
  (∀ m other, collided !! m = Some other → id other = 2%Z → m = 1) ∧
  ∀ m, m ≠ 1 → toggleTodo 2 collided !! m = collided !! m.
Proof.
  assert (Hsole : ∀ m other, collided !! m = Some other → id other = 2%Z → m = 1).
  { intros m other Hm Hid.
    do 6 (destruct m as [|m];
          [injection Hm as <-; first [reflexivity | discriminate Hid]|]).
    discriminate Hm. }
  split; [reflexivity|]. split; [exact Hsole|].
  exact (proj1 (proj2 (toggle_unique_flips_one collided 2 1
    (mkTodo 2 (js "Launch the Beta version") true) eq_refl eq_refl Hsole))).
Defined.

(** C2 as stated fails on a list the store can reach: with two tasks
    created at the same clock reading, position 4 holds a task with that id,
    and toggling the id also changes the task at position 5. *)
Lemma toggle_collision_flips_two :
  reachable collided ∧
  (∃ todo, collided !! 4 = Some todo ∧ id todo = tick) ∧
  ¬ (∀ m, m ≠ 4 → toggleTodo tick collided !! m = collided !! m).
Proof.
  split; [exact collided_reachable|]. split.
  - eexists. split; reflexivity.
  - intros H. specialize (H 5 ltac:(lia)). vm_compute in H. discriminate H.
Qed.

(** C3, as amended: for every task list that holds a task with id [i] and
    no other task with that id, [delete(i)] removes exactly one element,
    the task with id [i], and the remaining elements keep their relative
    order. *)
Theorem delete_unique_removes_one (l : list Todo) (i : Z) (n : nat) (todo : Todo) :
  l !! n = Some todo → id todo = i →
  (∀ m other, l !! m = Some other → id other = i → m = n) →
  deleteTodo i l = delete n l ∧
  deleteTodo i l = take n l ++ drop (S n) l ∧
  S (length (deleteTodo i l)) = length l.
Proof.
  intros Hn <- Hsole. rewrite (deleteTodo_sole l n todo Hn Hsole).
  rewrite <- delete_take_drop. split_and!; try done.
  rewrite length_delete by eauto.
  apply lookup_lt_Some in Hn. lia.
Qed.

(** The amended claim at work on the list with the collision: id 1 is
    carried by position 0 only, although two other tasks share an id. *)
Lemma delete_unique_removes_one_witness :
  collided !! 0 = Some (mkTodo 1 (js "Make a logo bigger") false) ∧
  (∀ m other, collided !! m = Some other → id other = 1%Z → m = 0) ∧
  deleteTodo 1 collided = delete 0 collided.
Proof.
  assert (Hsole : ∀ m other, collided !! m = Some other → id other = 1%Z → m = 0).
  { intros m other Hm Hid.
    do 6 (destruct m as [|m];
          [injection Hm as <-; first [reflexivity | discriminate Hid]|]).
    discriminate Hm. }
  split; [reflexivity|]. split; [exact Hsole|].
  exact (proj1 (delete_unique_removes_one collided 1 0
    (mkTodo 1 (js "Make a logo bigger") false) eq_refl eq_refl Hsole)).
Defined.

(** C3 as stated fails on a list the store can reach: with two tasks
    created at the same clock reading, deleting that id removes two
    elements, not one. *)
Lemma delete_collision_removes_two :
  reachable collided ∧
  (∃ todo, collided !! 4 = Some todo ∧ id todo = tick) ∧
  S (length (deleteTodo tick collided)) ≠ length collided ∧
  length (deleteTodo tick collided) + 2 = length collided.
Proof.
  split; [exact collided_reachable|]. split.
  - eexists. split; reflexivity.
  - vm_compute. split; [lia|reflexivity].
Qed.

(** C5 does not hold of the code: [addTodo] takes the id from the clock,
    and two tasks added at the same reading get the same id.  The list
    [collided] is reachable from the seed by two adds, and its ids are not
    pairwise distinct. *)
Theorem ids_collide_same_tick :
  reachable collided ∧
  id <$> collided = [1; 2; 3; 4; tick; tick]%Z ∧
  ¬ NoDup (id <$> collided).
Proof.
  split; [exact collided_reachable|]. split; [reflexivity|].
  intros Hnd. apply (NoDup_lookup _ 4 5 tick) in Hnd; [lia|reflexivity..].
Qed.

(** What the store does guarantee about ids: a call keeps them pairwise
    distinct unless it is an add whose clock reading is an id in use. *)
Lemma runCall_NoDup (now : Z) (c : StoreCall) (l : list Todo) :
  (∀ t, c = CallAdd t → now ∉ id <$> l) →
  NoDup (id <$> l) → NoDup (id <$> runCall now c l).
Proof.
  intros Hfresh Hnd. destruct c as [t|i|i]; simpl.
  - apply addTodo_NoDup; [by eapply Hfresh|done].
  - by apply toggleTodo_NoDup.
  - by apply deleteTodo_NoDup.
Qed.

(** C6 does not hold of the code: [handleInputChange] compares the length
    of the untrimmed text with 5.  With the error displayed, the keystroke
    that makes the text an "a" followed by four blanks clears the error,
    although the trimmed text has one character and a submission would
    still be rejected. *)
Theorem keystroke_clears_on_untrimmed_length :
  let f := {| inputValue := js "a   "; error := validationMessage |} in
  let v := js "a    " in
  truthy (error f) = true ∧
  length (trim v) = 1 ∧
  error (handleInputChange v f) = [] ∧
  snd (handleSubmit (handleInputChange v f)) = [] ∧
  error (fst (handleSubmit (handleInputChange v f))) = validationMessage.
Proof. vm_compute. repeat split. Qed.

(** C7: for every task list and every id [i] that no task carries, both
    [toggle(i)] and [delete(i)] leave the list unchanged, and nothing else
    changes either: the whole state of the application, error message
    included, is what it was. *)
Theorem absent_id_is_noop (now : Z) (app : App) (i : Z) :
  i ∉ id <$> todos app →
  toggleTodo i (todos app) = todos app ∧
  deleteTodo i (todos app) = todos app ∧
  step now (ToggleRow i) app = app ∧
  step now (DeleteRow i) app = app.
Proof.
  intros Hi. rewrite step_toggle, step_delete.
  rewrite (toggleTodo_absent _ _ Hi), (deleteTodo_absent _ _ Hi).
  by destruct app.
Qed.

Lemma absent_id_is_noop_witness :
  (9%Z ∉ id <$> todos initialApp) ∧ step tick (DeleteRow 9) initialApp = initialApp.
Proof.
  assert (Hi : 9%Z ∉ id <$> todos initialApp)
    by (apply (bool_decide_unpack _); vm_compute; exact I).
  split; [exact Hi|].
  exact (proj2 (proj2 (proj2 (absent_id_is_noop tick initialApp 9 Hi)))).
Defined.

(** C8: for every task list and every id [i], applying [toggle(i)] twice
    in succession yields a list in which the task with id [i] has its
    original completed value (indeed the original list). *)
Theorem toggle_twice_restores (l : list Todo) (i : Z) (n : nat) (todo : Todo) :
  l !! n = Some todo → id todo = i →
  completed <$> toggleTodo i l !! n = Some (negb (completed todo)) ∧
  completed <$> toggleTodo i (toggleTodo i l) !! n = Some (completed todo) ∧
  toggleTodo i (toggleTodo i l) = l.
Proof.
  intros Hn Hi. rewrite toggleTodo_involutive, Hn.
  by rewrite (toggleTodo_lookup_eq i l n todo Hn Hi).
Qed.

Lemma toggle_twice_restores_witness :
  completed <$> toggleTodo tick (toggleTodo tick collided) !! 5 = Some false.
Proof.
  exact (proj1 (proj2 (toggle_twice_restores collided tick 5
    (mkTodo tick (js "Task two") false) eq_refl eq_refl))).
Defined.

(** C9: for every task list, [delete(i)] removes every element whose id is
    [i]: what is left is, in order, the tasks with another id, none of them
    has id [i], and the list is shorter by the number of tasks that had id
    [i], however many they were. *)
Theorem delete_removes_every_match (l : list Todo) (i : Z) :
  (∀ todo, todo ∈ deleteTodo i l ↔ todo ∈ l ∧ id todo ≠ i) ∧
  (i ∉ id <$> deleteTodo i l) ∧
  deleteTodo i l `sublist_of` l ∧
  length (deleteTodo i l) + length (filter (λ todo, id todo = i) l) = length l.
Proof.
  split_and!.
  - intros todo. apply deleteTodo_elem_of.
  - intros (todo & Heq & Hin)%list_elem_of_fmap.
    apply deleteTodo_elem_of in Hin as [_ Hne]. by apply Hne.
  - apply sublist_filter.
  - unfold deleteTodo. induction l as [|todo l IH]; [done|].
    destruct (decide (id todo = i)) as [Hi|Hi].
    + rewrite filter_cons_False by (intros H; by apply H).
      rewrite (filter_cons_True (λ todo, id todo = i)) by done. simpl. lia.
    + rewrite filter_cons_True by done.
      rewrite (filter_cons_False (λ todo, id todo = i)) by done. simpl. lia.
Qed.

(** One delete call takes out both tasks that share an id. *)
Example delete_collision_removes_both : deleteTodo tick collided = initialTodos.
Proof. reflexivity. Qed.

(** C10: for every task list and every id [i], carried by one task, by none
    or by several, [toggle(i)] keeps the length of the list, the sequence
    of ids and the text of every task: an element can differ from the one
    it replaces in [completed] only. *)
Theorem toggle_frame (l : list Todo) (i : Z) :
  length (toggleTodo i l) = length l ∧
  id <$> toggleTodo i l = id <$> l ∧
  text <$> toggleTodo i l = text <$> l ∧
  (∀ n todo', toggleTodo i l !! n = Some todo' →
     ∃ todo, l !! n = Some todo ∧ id todo' = id todo ∧ text todo' = text todo ∧
             (completed todo' = completed todo → todo' = todo)).
Proof.
  split_and!.
  - apply toggleTodo_length.
  - apply toggleTodo_ids.
  - apply toggleTodo_texts.
  - intros n todo'. rewrite toggleTodo_lookup.
    destruct (l !! n) as [todo|]; [|done]. simpl. intros [= <-].
    exists todo. split; [done|]. case_decide; [|done].
    split_and!; try done. destruct todo as [? ? []]; done.
Qed.

(** * Further properties of the code *)

(** ** Trimming, continued *)

Section TrimMore.
Implicit Types s : jsstring.

Lemma trimStart_idemp s : trimStart (trimStart s) = trimStart s.
Proof.
  induction s as [|c r IH]; [done|]. simpl.
  destruct (isWhiteSpace c) eqn:Hc; [done|]. simpl. by rewrite Hc.
Qed.

Lemma trimStart_snoc s c :
  isWhiteSpace c = false → trimStart (s ++ [c]) = trimStart s ++ [c].
Proof.
  intros Hc. induction s as [|d r IH]; simpl; [by rewrite Hc|].
  by destruct (isWhiteSpace d).
Qed.

Lemma trimEnd_cons s c : isWhiteSpace c = false → trimEnd (c :: s) = c :: trimEnd s.
Proof.
  intros Hc. unfold trimEnd.
  by rewrite reverse_cons, (trimStart_snoc _ _ Hc), reverse_snoc.
Qed.

Lemma trimEnd_idemp s : trimEnd (trimEnd s) = trimEnd s.
Proof. unfold trimEnd. by rewrite reverse_involutive, trimStart_idemp. Qed.

(** Trimming a trimmed text changes nothing: nothing is left to strip at
    either end. *)
Lemma trim_idemp s : trim (trim s) = trim s.
Proof.
  unfold trim. destruct (trimStart s) as [|c r] eqn:Hs; [done|].
  pose proof (trimStart_head _ _ _ Hs) as Hc.
  rewrite (trimEnd_cons _ _ Hc). simpl. rewrite Hc.
  by rewrite (trimEnd_cons _ _ Hc), trimEnd_idemp.
Qed.
End TrimMore.

(** ** How the store operations compose *)

Section StoreAlgebra.
Implicit Types (l : list Todo) (i j now : Z) (t : jsstring).

Lemma deleteTodo_toggleTodo i j l :
  deleteTodo i (toggleTodo j l) = toggleTodo j (deleteTodo i l).
Proof.
  unfold deleteTodo, toggleTodo. induction l as [|todo l IH]; [done|].
  rewrite fmap_cons. destruct (decide (id todo = i)) as [Hi|Hi].
  - rewrite (filter_cons_False _ todo) by (intros H; by apply H).
    rewrite filter_cons_False; [done|]. intros H; apply H. by case_decide.
  - rewrite (filter_cons_True _ todo) by done.
    rewrite filter_cons_True; [by rewrite fmap_cons, IH|]. by case_decide.
Qed.

Lemma deleteTodo_no_id i l : i ∉ id <$> deleteTodo i l.
Proof.
  intros (todo & Heq & Hin)%list_elem_of_fmap.
  apply deleteTodo_elem_of in Hin as [_ Hne]. by apply Hne.
Qed.

Lemma runCall_ids now c l i :
  i ∈ id <$> runCall now c l → i ∈ id <$> l ∨ i = now.
Proof.
  destruct c as [t|j|j]; simpl.
  - rewrite addTodo_ids, elem_of_app, list_elem_of_singleton. tauto.
  - rewrite toggleTodo_ids. tauto.
  - intros (todo & -> & Hin)%list_elem_of_fmap.
    apply deleteTodo_elem_of in Hin as [Hin _].
    left. apply list_elem_of_fmap. by exists todo.
Qed.
End StoreAlgebra.

(** X1: deleting an id twice is the same as deleting it once, and two
    deletions can be done in either order. *)
Theorem delete_idempotent_commutes (l : list Todo) (i j : Z) :
  deleteTodo i (deleteTodo i l) = deleteTodo i l ∧
  deleteTodo i (deleteTodo j l) = deleteTodo j (deleteTodo i l).
Proof.
  split.
  - apply deleteTodo_absent, deleteTodo_no_id.
  - unfold deleteTodo. rewrite !list_filter_filter.
    apply list_filter_iff. tauto.
Qed.

(** X2: two toggles can be done in either order, whatever the two ids. *)
Theorem toggle_commutes (l : list Todo) (i j : Z) :
  toggleTodo i (toggleTodo j l) = toggleTodo j (toggleTodo i l).
Proof.
  unfold toggleTodo. rewrite <- !list_fmap_compose.
  apply list_fmap_ext. intros _ todo _. simpl.
  destruct (decide (id todo = i)), (decide (id todo = j)); simpl;
    repeat (rewrite decide_True by done); repeat (rewrite decide_False by done);
    done.
Qed.

(** X3: a deletion and a toggle can be done in either order, and a toggle
    of the id that is deleted next is lost: delete after toggle is delete. *)
Theorem delete_absorbs_toggle (l : list Todo) (i j : Z) :
  deleteTodo i (toggleTodo j l) = toggleTodo j (deleteTodo i l) ∧
  deleteTodo i (toggleTodo i l) = deleteTodo i l.
Proof.
  split; [apply deleteTodo_toggleTodo|].
  rewrite deleteTodo_toggleTodo. apply toggleTodo_absent, deleteTodo_no_id.
Qed.

(** X4: deleting the id of the task just added also deletes every older
    task with that id; when the clock reading was not an id in use, add
    followed by delete gives back the list as it was. *)
Theorem add_then_delete (now : Z) (t : jsstring) (l : list Todo) :
  deleteTodo now (addTodo now t l) = deleteTodo now l ∧
  (now ∉ id <$> l → deleteTodo now (addTodo now t l) = l).
Proof.
  assert (H : deleteTodo now (addTodo now t l) = deleteTodo now l).
  { unfold addTodo. rewrite deleteTodo_app. unfold deleteTodo at 2.
    rewrite filter_cons_False by (intros H; by apply H).
    by rewrite filter_nil, app_nil_r. }
  split; [done|]. intros Hfresh. rewrite H. by apply deleteTodo_absent.
Qed.

Lemma add_then_delete_witness :
  (7%Z ∉ id <$> initialTodos) ∧
  deleteTodo 7 (addTodo 7 (js "Water the plants") initialTodos) = initialTodos.
Proof.
  assert (Hfresh : 7%Z ∉ id <$> initialTodos)
    by (apply (bool_decide_unpack _); vm_compute; exact I).
  split; [exact Hfresh|].
  exact (proj2 (add_then_delete 7 (js "Water the plants") initialTodos) Hfresh).
Defined.

(** X5: toggling the id of the task just added completes that task and
    toggles every older task with that id; when the clock reading was not an
    id in use, the older tasks are untouched. *)
Theorem add_then_toggle (now : Z) (t : jsstring) (l : list Todo) :
  toggleTodo now (addTodo now t l) = toggleTodo now l ++ [mkTodo now t true] ∧
  (now ∉ id <$> l → toggleTodo now (addTodo now t l) = l ++ [mkTodo now t true]).
Proof.
  assert (H : toggleTodo now (addTodo now t l) = toggleTodo now l ++ [mkTodo now t true]).
  { unfold addTodo, toggleTodo. rewrite fmap_app. simpl. by rewrite decide_True. }
  split; [done|]. intros Hfresh. rewrite H. by rewrite toggleTodo_absent.
Qed.

Lemma add_then_toggle_witness :
  (7%Z ∉ id <$> initialTodos) ∧
  toggleTodo 7 (addTodo 7 (js "Water the plants") initialTodos) =
  initialTodos ++ [mkTodo 7 (js "Water the plants") true].
Proof.
  assert (Hfresh : 7%Z ∉ id <$> initialTodos)
    by (apply (bool_decide_unpack _); vm_compute; exact I).
  split; [exact Hfresh|].
  exact (proj2 (add_then_toggle 7 (js "Water the plants") initialTodos) Hfresh).
Defined.

(** X6: an add and a toggle or a deletion of another id can be done in
    either order. *)
Theorem add_commutes_with_other_id (now i : Z) (t : jsstring) (l : list Todo) :
  i ≠ now →
  toggleTodo i (addTodo now t l) = addTodo now t (toggleTodo i l) ∧
  deleteTodo i (addTodo now t l) = addTodo now t (deleteTodo i l).
Proof.
  intros Hne. unfold addTodo. split.
  - unfold toggleTodo. rewrite fmap_app. simpl. by rewrite decide_False.
  - rewrite deleteTodo_app. unfold deleteTodo at 2.
    by rewrite filter_cons_True by (simpl; congruence).
Qed.

Lemma add_commutes_with_other_id_witness :
  deleteTodo 2 (addTodo tick (js "Buy milk") initialTodos) =
  addTodo tick (js "Buy milk") (deleteTodo 2 initialTodos).
Proof.
  exact (proj2 (add_commutes_with_other_id tick 2 (js "Buy milk") initialTodos
    ltac:(discriminate))).
Defined.


(** X8: when the clock readings of successive store calls increase
    strictly and all exceed the ids in use, the ids stay pairwise distinct. *)
Theorem increasing_clock_unique_ids (cs : list (Z * StoreCall)) (l : list Todo) :
  NoDup (id <$> l) →
  StronglySorted Z.lt (fst <$> cs) →
  (∀ i c, i ∈ id <$> l → c ∈ cs → (i < fst c)%Z) →
  NoDup (id <$> runTimed cs l).
Proof.
  revert l. induction cs as [|[now c] cs IH]; intros l Hnd Hs Hlt; [done|].
  rewrite fmap_cons in Hs. apply StronglySorted_inv in Hs as [Hs Hnow].
  change (NoDup (id <$> runTimed cs (runCall now c l))). apply IH; [|done|].
  - apply runCall_NoDup; [|done]. intros _ _ Hin.
    specialize (Hlt now (now, c) Hin ltac:(left)). simpl in Hlt. lia.
  - intros i c' [Hi | ->]%runCall_ids Hc'.
    + apply Hlt; [done|by right].
    + rewrite Forall_forall in Hnow. apply Hnow.
      apply list_elem_of_fmap. by exists c'.
Qed.

Lemma increasing_clock_unique_ids_witness :
  NoDup (id <$> runTimed [ (tick, CallAdd (js "Task one"));
                           (tick + 1, CallAdd (js "Task two"))%Z ] initialTodos).
Proof.
  apply increasing_clock_unique_ids.
  - exact initialTodos_NoDup.
  - repeat constructor.
  - intros i c Hi Hc.
    assert (Hi4 : (i ≤ 4)%Z).
    { change (id <$> initialTodos) with [1; 2; 3; 4]%Z in Hi.
      rewrite !elem_of_cons, elem_of_nil in Hi. lia. }
    rewrite !elem_of_cons, elem_of_nil in Hc.
    destruct Hc as [-> | [-> | []]]; unfold tick; simpl; lia.
Defined.

(** ** The views *)

Lemma TodoList_rows (l : list Todo) rows :
  TodoList l = Rows rows → rows = (λ todo, (id todo, TodoItem todo)) <$> l.
Proof. destruct l; simpl; [done|]. by intros [= <-]. Qed.

Lemma TodoList_row (l : list Todo) rows (n : nat) (k : Z) (r : RowView) :
  TodoList l = Rows rows → rows !! n = Some (k, r) →
  ∃ todo, l !! n = Some todo ∧ k = id todo ∧ r = TodoItem todo.
Proof.
  intros ->%TodoList_rows. rewrite list_lookup_fmap.
  destruct (l !! n) as [todo|]; [|done]. simpl. intros [= <- <-]. by exists todo.
Qed.

(** X9: the delete control of a displayed row never misses: the call it
    makes shortens the list, and no task with the key of that row is left. *)
Theorem row_delete_hits (now : Z) (l : list Todo) rows (n : nat) (k : Z) (r : RowView) :
  TodoList l = Rows rows → rows !! n = Some (k, r) →
  length (runCall now (onClick r) l) < length l ∧
  k ∉ id <$> runCall now (onClick r) l.
Proof.
  intros Hv Hn. destruct (TodoList_row l rows n k r Hv Hn) as (todo & Hl & -> & ->).
  simpl. split; [|apply deleteTodo_no_id].
  apply (length_filter_lt _ _ todo); [by eapply list_elem_of_lookup_2|].
  intros H. by apply H.
Qed.

Lemma row_delete_hits_witness :
  length (runCall tick (CallDelete 3) initialTodos) < length initialTodos.
Proof.
  exact (proj1 (row_delete_hits tick initialTodos _ 2 3 (TodoItem (mkTodo 3 (js "Fix the car") false))
    eq_refl eq_refl)).
Defined.

(** X10: after the checkbox of a displayed row is used, the list view
    has the same keys in the same order, and the row at that position shows
    the same text with the checkbox in the opposite state. *)
Theorem row_toggle_shows_flipped (now : Z) (l : list Todo) rows (n : nat) (k : Z) (r : RowView) :
  TodoList l = Rows rows → rows !! n = Some (k, r) →
  ∃ rows' r',
    TodoList (runCall now (onChange r) l) = Rows rows' ∧
    fst <$> rows' = fst <$> rows ∧
    rows' !! n = Some (k, r') ∧
    checked r' = negb (checked r) ∧ label r' = label r.
Proof.
  intros Hv Hn. destruct (TodoList_row l rows n k r Hv Hn) as (todo & Hl & -> & ->).
  apply TodoList_rows in Hv as ->. simpl.
  exists ((λ todo, (id todo, TodoItem todo)) <$> toggleTodo (id todo) l),
         (TodoItem (flipCompleted todo)).
  split_and!; try done.
  - destruct l as [|first l]; [done|]. done.
  - rewrite <- !list_fmap_compose.
    change (id <$> toggleTodo (id todo) l = id <$> l). apply toggleTodo_ids.
  - rewrite list_lookup_fmap, (toggleTodo_lookup_eq _ _ _ _ Hl eq_refl). done.
Qed.

Lemma row_toggle_shows_flipped_witness :
  ∃ rows' r',
    TodoList (runCall tick (CallToggle 2) initialTodos) = Rows rows' ∧
    fst <$> rows' = [1; 2; 3; 4]%Z ∧
    rows' !! 1 = Some (2%Z, r') ∧
    checked r' = false ∧ label r' = js "Launch the Beta version".
Proof.
  exact (row_toggle_shows_flipped tick initialTodos _ 1 2
    (TodoItem (mkTodo 2 (js "Launch the Beta version") true)) eq_refl eq_refl).
Defined.

Lemma foldr_deleteTodo_elem_of (l : list Todo) (ks : list Z) (todo : Todo) :
  todo ∈ foldr deleteTodo l ks ↔ todo ∈ l ∧ id todo ∉ ks.
Proof.
  induction ks as [|k ks IH]; simpl.
  - rewrite elem_of_nil. tauto.
  - rewrite deleteTodo_elem_of, IH, not_elem_of_cons. tauto.
Qed.

(** X11: after a series of deletions the list view shows the placeholder
    exactly when every task of the list had its id deleted. *)
Theorem placeholder_iff_all_deleted (l : list Todo) (ks : list Z) :
  TodoList (foldr deleteTodo l ks) = EmptyState (js "No tasks yet. Add one above!") ↔
  ∀ todo, todo ∈ l → id todo ∈ ks.
Proof.
  split.
  - intros Hv todo Hin. destruct (decide (id todo ∈ ks)) as [|Hni]; [done|].
    assert (Hleft : todo ∈ foldr deleteTodo l ks)
      by (by apply foldr_deleteTodo_elem_of).
    destruct (foldr deleteTodo l ks); [by apply elem_of_nil in Hleft|done].
  - intros Hall. destruct (foldr deleteTodo l ks) as [|todo rest] eqn:Hrest; [done|].
    assert (Hin : todo ∈ foldr deleteTodo l ks) by (rewrite Hrest; left).
    apply foldr_deleteTodo_elem_of in Hin as [Hin Hni]. destruct Hni. by apply Hall.
Qed.

(** ** Sessions *)

Section Sessions.
Implicit Types (app : App) (f : Form) (ev : Event) (now : Z).

(** A property of the initial page that every event preserves holds
    throughout every session. *)
Lemma run_invariant (P : App → Prop) :
  P initialApp →
  (∀ now ev app, P app → P (step now ev app)) →
  ∀ evs, P (run evs initialApp).
Proof.
  intros Hinit Hstep evs. revert Hinit. generalize initialApp.
  induction evs as [|[now ev] evs IH]; intros app Happ; [done|].
  simpl. apply IH. by apply Hstep.
Qed.

(** The store calls an event makes: none, or one. *)
Lemma handle_calls ev f :
  snd (handle ev f) = [] ∨
  (submits ev ∧ 5 ≤ length (trim (inputValue f)) ∧
   snd (handle ev f) = [CallAdd (trim (inputValue f))]) ∨
  (∃ i, ev = ToggleRow i ∧ snd (handle ev f) = [CallToggle i]) ∨
  (∃ i, ev = DeleteRow i ∧ snd (handle ev f) = [CallDelete i]).
Proof.
  assert (Hsub : ∀ ev', submits ev' → handle ev' f = handleSubmit f →
            snd (handle ev' f) = [] ∨
            (submits ev' ∧ 5 ≤ length (trim (inputValue f)) ∧
             snd (handle ev' f) = [CallAdd (trim (inputValue f))])).
  { intros ev' Hs ->. unfold handleSubmit. case_bool_decide; simpl; [by left|].
    right. split_and!; [done|lia|done]. }
  destruct ev as [v| |key|i|i]; simpl.
  - by left.
  - destruct (Hsub ClickAdd) as [H|H]; [by left|done|by left|by right; left].
  - unfold handleKeyPress. case_decide as Hk; [|by left]. subst key.
    destruct (Hsub (KeyPress (js "Enter"))) as [H|H]; [by right| |..].
    + simpl. unfold handleKeyPress. by rewrite decide_True.
    + left. simpl in H. unfold handleKeyPress in H. by rewrite decide_True in H.
    + right; left. destruct H as (? & ? & H). split_and!; [done..|].
      simpl in H. unfold handleKeyPress in H. by rewrite decide_True in H.
  - right; right; left. by exists i.
  - right; right; right. by exists i.
Qed.

(** The form after an event. *)
Lemma handle_form ev f :
  fst (handle ev f) = f ∨
  (∃ v, ev = InputChange v ∧ fst (handle ev f) = handleInputChange v f) ∨
  (submits ev ∧ fst (handle ev f) = fst (handleSubmit f)).
Proof.
  destruct ev as [v| |key|i|i]; simpl.
  - right; left. by exists v.
  - right; right. split; [by left|done].
  - unfold handleKeyPress. case_decide as Hk; [|by left]. subst key.
    right; right. split; [by right|done].
  - by left.
  - by left.
Qed.
End Sessions.

Lemma step_validText (now : Z) (ev : Event) (app : App) :
  Forall (λ todo, validText (text todo)) (todos app) →
  Forall (λ todo, validText (text todo)) (todos (step now ev app)).
Proof.
  intros Hall. unfold step. simpl.
  destruct (handle_calls ev (form app)) as [-> | [(_ & Hlen & ->) | [(i & _ & ->) | (i & _ & ->)]]];
    simpl; [done| | |].
  - unfold addTodo. apply Forall_app. split; [done|].
    apply Forall_singleton. simpl. split; [done|apply trim_idemp].
  - unfold toggleTodo. apply Forall_fmap. eapply Forall_impl; [exact Hall|].
    intros todo Hv. simpl. by case_decide.
  - rewrite Forall_forall in Hall |- *. intros todo Hin.
    apply deleteTodo_elem_of in Hin as [Hin _]. by apply Hall.
Qed.

Lemma step_errorSound (now : Z) (ev : Event) (app : App) :
  errorSound (form app) → errorSound (form (step now ev app)).
Proof.
  intros Hf. unfold step. simpl.
  destruct (handle_form ev (form app)) as [-> | [(v & _ & ->) | (_ & ->)]]; [done| |].
  - unfold errorSound, handleInputChange. simpl.
    pose proof (length_trim_le v) as Hle.
    destruct Hf as [-> | [-> _]]; simpl; [by left|].
    case_bool_decide; [by left|]. right. split; [done|lia].
  - unfold errorSound, handleSubmit. case_bool_decide as Hlen; simpl.
    + by right.
    + destruct Hf as [Hf | [_ Hf]]; [by left|lia].
Qed.

(** X12: throughout every session, every task in the list has a text of
    at least five code units with no white space at either end: the seed
    texts are such, and the form lets no other text through. *)
Theorem session_texts_valid (evs : list (Z * Event)) :
  Forall (λ todo, 5 ≤ length (text todo) ∧ trim (text todo) = text todo)
         (todos (run evs initialApp)).
Proof.
  apply (run_invariant (λ app, Forall (λ todo, validText (text todo)) (todos app))).
  - repeat constructor.
  - apply step_validText.
Qed.

(** X13: throughout every session, the error box is absent or shows the
    validation message, and while it shows the input as it stands would be
    rejected by a submission. *)
Theorem session_error_sound (evs : list (Z * Event)) :
  errorMessage (AddTodoForm (form (run evs initialApp))) = None ∨
  (errorMessage (AddTodoForm (form (run evs initialApp))) = Some validationMessage ∧
   length (trim (inputValue (form (run evs initialApp)))) < 5).
Proof.
  pose proof (run_invariant (λ app, errorSound (form app))
                ltac:(by left) step_errorSound evs) as [H | [H Hlen]];
    unfold AddTodoForm; simpl; rewrite H; [by left|by right].
Qed.

(** X14: in a session, an accepted submission always leaves the form
    empty and without an error box. *)
Theorem accepted_submit_clears_form (evs : list (Z * Event)) (now : Z) (ev : Event) :
  submits ev →
  5 ≤ length (trim (inputValue (form (run evs initialApp)))) →
  AddTodoForm (form (step now ev (run evs initialApp))) =
  {| value := []; errorMessage := None |}.
Proof.
  intros Hs Hlen. rewrite (step_submit_long _ _ _ Hs Hlen). simpl.
  pose proof (run_invariant (λ app, errorSound (form app))
                ltac:(by left) step_errorSound evs) as [H | [_ H]]; [|lia].
  unfold AddTodoForm. simpl. by rewrite H.
Qed.

Lemma accepted_submit_clears_form_witness :
  AddTodoForm (form (step tick ClickAdd
    (run [ (tick, InputChange (js "ok")); (tick, ClickAdd);
           (tick, InputChange (js "Buy milk")) ] initialApp))) =
  {| value := []; errorMessage := None |}.
Proof.
  apply accepted_submit_clears_form; [by left|vm_compute; lia].
Defined.

(** X15: a second submission right after an accepted one adds nothing:
    the input was cleared, so the second one is rejected and shows the
    validation message, although the task has been added. *)
Theorem double_submit_adds_once (now1 now2 : Z) (ev1 ev2 : Event) (app : App) :
  submits ev1 → submits ev2 →
  5 ≤ length (trim (inputValue (form app))) →
  todos (step now2 ev2 (step now1 ev1 app)) =
    addTodo now1 (trim (inputValue (form app))) (todos app) ∧
  form (step now2 ev2 (step now1 ev1 app)) =
    {| inputValue := []; error := validationMessage |}.
Proof.
  intros Hs1 Hs2 Hlen. rewrite (step_submit_long _ _ _ Hs1 Hlen).
  rewrite (step_submit_short _ _ _ Hs2); [done|]. simpl. vm_compute. lia.
Qed.

Lemma double_submit_adds_once_witness :
  form (step tick (KeyPress (js "Enter")) (step tick ClickAdd buyMilk)) =
  {| inputValue := []; error := validationMessage |}.
Proof.
  refine (proj2 (double_submit_adds_once tick tick ClickAdd (KeyPress (js "Enter"))
    buyMilk _ _ _)); [by left|by right|vm_compute; lia].
Defined.

(** X16: the list grows only through an accepted submission: if an event
    makes the list longer, the event is a submission and the trimmed input
    has at least five code units. *)
Theorem only_valid_submit_grows (now : Z) (ev : Event) (app : App) :
  length (todos app) < length (todos (step now ev app)) →
  submits ev ∧ 5 ≤ length (trim (inputValue (form app))).
Proof.
  unfold step. simpl.
  destruct (handle_calls ev (form app)) as [-> | [(Hs & Hlen & _) | [(i & _ & ->) | (i & _ & ->)]]];
    simpl; [lia|done| |].
  - rewrite toggleTodo_length. lia.
  - pose proof (length_filter (λ todo, id todo ≠ i) (todos app)).
    unfold deleteTodo. lia.
Qed.

Lemma only_valid_submit_grows_witness :
  submits ClickAdd ∧ 5 ≤ length (trim (inputValue (form buyMilk))).
Proof.
  apply (only_valid_submit_grows tick ClickAdd buyMilk). vm_compute. lia.
Defined.

(** X17: the error changes in two ways only: a keystroke that leaves at
    least five code units in the input removes it, and a rejected submission
    sets it to the validation message. *)
Theorem error_changes_two_ways (now : Z) (ev : Event) (app : App) :
  error (form (step now ev app)) ≠ error (form app) →
  (∃ v, ev = InputChange v ∧ 5 ≤ length v ∧ error (form (step now ev app)) = []) ∨
  (submits ev ∧ length (trim (inputValue (form app))) < 5 ∧
   error (form (step now ev app)) = validationMessage).
Proof.
  unfold step. simpl.
  destruct (handle_form ev (form app)) as [-> | [(v & -> & ->) | (Hs & ->)]]; [done| |].
  - intros Hne. left. exists v. split; [done|]. revert Hne.
    unfold handleInputChange. simpl.
    destruct (truthy (error (form app))); simpl; [|done].
    case_bool_decide; [done|]. done.
  - intros Hne. right. split; [done|]. revert Hne.
    unfold handleSubmit. case_bool_decide; simpl; done.
Qed.

Lemma error_changes_two_ways_witness :
  (∃ v, ClickAdd = InputChange v ∧ 5 ≤ length v ∧
        error (form (step tick ClickAdd tooShort)) = []) ∨
  (submits ClickAdd ∧ length (trim (inputValue (form tooShort))) < 5 ∧
   error (form (step tick ClickAdd tooShort)) = validationMessage).
Proof.
  apply (error_changes_two_ways tick ClickAdd tooShort). vm_compute. discriminate.
Defined.
